(** * BDLS consensus: configuration check and TCP peer send queue

    A shallow embedding of [consensus.VerifyConfig] (config.go), of the
    [agent.TCPPeer] type with its methods, and of the configuration the
    command line client builds before it starts an agent.

    Go methods with a pointer receiver are written in a state monad over the
    pointee, so that what a call reads and what it writes stays visible. *)

From Stdlib Require Import ZArith NArith List Bool Lia.
From Stdlib Require Import Strings.String.
From ExtLib Require Import Structures.Monad Structures.MonadState.
From ExtLib Require Import Data.Monads.StateMonad.
Import ListNotations.
Import MonadNotation.
Local Open Scope monad_scope.

(** ** Go values shared by the packages *)

(** A Go slice: [None] is the nil slice, [Some l] a non-nil slice holding [l].
    Backing arrays and capacities are left out: the code at hand appends to
    slices and takes their length, and never writes through an index. *)
Definition slice (A : Type) : Type := option (list A).

Definition elems {A} (s : slice A) : list A :=
  match s with
  | None => []
  | Some l => l
  end.

(** Go's builtin [len]: the nil slice has length 0. *)
Definition len {A} (s : slice A) : nat := List.length (elems s).

(** Go's builtin [append] with one element: the result is never nil. *)
Definition append {A} (s : slice A) (x : A) : slice A := Some (elems s ++ [x]).

(** A Go pointer that is only compared with nil and dereferenced. *)
Definition ptr (A : Type) : Type := option A.

Definition bytes : Type := slice Byte.byte.

Definition is_nil {A} (p : option A) : bool :=
  match p with
  | None => true
  | Some _ => false
  end.

(** A field assignment [p.f = v] through a pointer [p] to a struct [T], given
    the update of that field. *)
Definition assign {T V} (set : V -> T -> T) (v : V) : state T unit :=
  p <- get ;; put (set v p).

(** [time.Time] of the Go library, reduced to what [IsZero] looks at: seconds
    since January 1, year 1 00:00:00 UTC, and nanoseconds within the second. *)
Module time.

Record Time : Type := mkTime { sec : Z; nsec : Z }.

Definition IsZero (t : Time) : bool := (sec t =? 0)%Z && (nsec t =? 0)%Z.

End time.

(** [ecdsa.PublicKey] and [ecdsa.PrivateKey] of the Go library, the curve
    being fixed. *)
Module ecdsa.

Record PublicKey : Type := mkPublicKey { X : Z; Y : Z }.

Record PrivateKey : Type := mkPrivateKey { Public : PublicKey; D : Z }.

End ecdsa.

(** ** Package consensus: config.go *)

Module consensus.

Definition ConfigMinimumParticipants : nat := 4.

(** Modelled from the spec: the types [State] and [StateHash] are declared
    in a file of the package that is not among the sources. A state is an
    opaque byte sequence (the client assigns a byte slice to it), a state
    hash a fixed-size digest (written [Digest] here, the name being taken
    by the field of [Config]). *)
Definition State : Type := bytes.
Definition Digest : Type := list Byte.byte.

(** Modelled from the spec: the sentinel errors [VerifyConfig] returns are
    declared in a file of the package that is not among the sources; they
    are taken as one value per name used in config.go, pairwise different
    as values made by separate [errors.New] calls are. *)
Inductive Err : Type :=
| ErrConfigEpoch
| ErrConfigStateNil
| ErrConfigLess
| ErrConfigValidateState
| ErrConfigPrivateKey
| ErrConfigParticipants.

(** Go's [error] interface: [None] is the nil error. *)
Definition error : Type := option Err.

Record Config : Type := mkConfig {
  Epoch : time.Time;
  CurrentHeight : N;
  CurrentState : State;
  PrivateKey : ptr ecdsa.PrivateKey;
  Participants : slice (ptr ecdsa.PublicKey);
  StateCompare : option (State -> State -> Z);
  StateValidate : option (State -> bool);
  StateHash : option (State -> Digest)
}.

(** [new(Config)]: every field has its zero value. *)
Definition new_Config : Config :=
  mkConfig (time.mkTime 0 0) 0 None None None None None None.

Definition set_Epoch (v : time.Time) (c : Config) : Config :=
  mkConfig v (CurrentHeight c) (CurrentState c) (PrivateKey c)
    (Participants c) (StateCompare c) (StateValidate c) (StateHash c).

Definition set_CurrentHeight (v : N) (c : Config) : Config :=
  mkConfig (Epoch c) v (CurrentState c) (PrivateKey c)
    (Participants c) (StateCompare c) (StateValidate c) (StateHash c).

Definition set_CurrentState (v : State) (c : Config) : Config :=
  mkConfig (Epoch c) (CurrentHeight c) v (PrivateKey c)
    (Participants c) (StateCompare c) (StateValidate c) (StateHash c).

Definition set_PrivateKey (v : ptr ecdsa.PrivateKey) (c : Config) : Config :=
  mkConfig (Epoch c) (CurrentHeight c) (CurrentState c) v
    (Participants c) (StateCompare c) (StateValidate c) (StateHash c).

Definition set_Participants (v : slice (ptr ecdsa.PublicKey)) (c : Config) : Config :=
  mkConfig (Epoch c) (CurrentHeight c) (CurrentState c) (PrivateKey c)
    v (StateCompare c) (StateValidate c) (StateHash c).

Definition set_StateCompare (v : option (State -> State -> Z)) (c : Config) : Config :=
  mkConfig (Epoch c) (CurrentHeight c) (CurrentState c) (PrivateKey c)
    (Participants c) v (StateValidate c) (StateHash c).

Definition set_StateValidate (v : option (State -> bool)) (c : Config) : Config :=
  mkConfig (Epoch c) (CurrentHeight c) (CurrentState c) (PrivateKey c)
    (Participants c) (StateCompare c) v (StateHash c).

Definition set_StateHash (v : option (State -> Digest)) (c : Config) : Config :=
  mkConfig (Epoch c) (CurrentHeight c) (CurrentState c) (PrivateKey c)
    (Participants c) (StateCompare c) (StateValidate c) v.

(** [func VerifyConfig(c *Config) error]: the state is the [Config] that
    [c] points to. *)
Definition VerifyConfig : state Config error :=
  epoch <- gets Epoch ;;
  if time.IsZero epoch then ret (Some ErrConfigEpoch) else
  currentState <- gets CurrentState ;;
  if is_nil currentState then ret (Some ErrConfigStateNil) else
  stateCompare <- gets StateCompare ;;
  if is_nil stateCompare then ret (Some ErrConfigLess) else
  stateValidate <- gets StateValidate ;;
  if is_nil stateValidate then ret (Some ErrConfigValidateState) else
  privateKey <- gets PrivateKey ;;
  if is_nil privateKey then ret (Some ErrConfigPrivateKey) else
  participants <- gets Participants ;;
  if len participants <? ConfigMinimumParticipants
  then ret (Some ErrConfigParticipants)
  else ret None.

End consensus.

(** ** Package agent: the TCP peer *)

Module net.

(** [net.Addr] and [net.Conn] of the Go library; a peer only asks its
    connection for the remote address. *)
Record Addr : Type := mkAddr { Network : String.string; String : String.string }.

Record Conn : Type := mkConn { RemoteAddr : Addr }.

End net.

Module agent.

(** A [chan struct{}]: the elements carry no data, so a channel is its
    capacity and the number of elements buffered in it. [nil_chan] is the
    zero value of the type. The package closes no channel, so a closed
    state is not part of the model. *)
Inductive chan : Type :=
| nil_chan
| buffered (capacity queued : nat).

(** [make(chan struct{}, n)] *)
Definition make_chan (n : nat) : chan := buffered n 0.

(** The statement [ch <- struct{}{}] when no receiver is waiting: the
    channel after the send, or [None] when the statement would block (a nil
    channel, or no room left in the buffer). *)
Definition send (ch : chan) : option chan :=
  match ch with
  | nil_chan => None
  | buffered c q => if q <? c then Some (buffered c (S q)) else None
  end.

(** The statement [<-ch] when no sender is waiting: [None] when it would
    block. *)
Definition recv (ch : chan) : option chan :=
  match ch with
  | nil_chan => None
  | buffered c q =>
      match q with
      | O => None
      | S q' => Some (buffered c q')
      end
  end.

(** [type TCPPeer struct]. The embedded mutex guards all fields: a method
    that locks it on entry and unlocks it on return is one atomic step on
    the record. *)
Record TCPPeer : Type := mkTCPPeer {
  conn : ptr net.Conn;
  publicKey : ptr ecdsa.PublicKey;
  pending : slice bytes;
  chPending : chan;
  die : chan
}.

Definition set_conn (v : ptr net.Conn) (p : TCPPeer) : TCPPeer :=
  mkTCPPeer v (publicKey p) (pending p) (chPending p) (die p).

Definition set_pending (v : slice bytes) (p : TCPPeer) : TCPPeer :=
  mkTCPPeer (conn p) (publicKey p) v (chPending p) (die p).

Definition set_chPending (v : chan) (p : TCPPeer) : TCPPeer :=
  mkTCPPeer (conn p) (publicKey p) (pending p) v (die p).

Definition set_die (v : chan) (p : TCPPeer) : TCPPeer :=
  mkTCPPeer (conn p) (publicKey p) (pending p) (chPending p) v.

(** [new(TCPPeer)]: every field has its zero value. *)
Definition new_TCPPeer : TCPPeer := mkTCPPeer None None None nil_chan nil_chan.

(** [func NewTCPPeer(conn net.Conn) *TCPPeer] *)
Definition NewTCPPeer (c : ptr net.Conn) : TCPPeer :=
  execState
    (assign set_chPending (make_chan 1) ;;
     assign set_conn c ;;
     assign set_die (make_chan 0))
    new_TCPPeer.

(** [func (p *TCPPeer) GetPublicKey() *ecdsa.PublicKey] *)
Definition GetPublicKey : state TCPPeer (ptr ecdsa.PublicKey) :=
  gets publicKey.

(** [func (p *TCPPeer) RemoteAddr() net.Addr]; [None] is the panic of a
    call through a nil connection. *)
Definition RemoteAddr : state TCPPeer (option net.Addr) :=
  c <- gets conn ;;
  ret (option_map net.RemoteAddr c).

(** [func (p *TCPPeer) notifyPending()]: a [select] with a [default] case
    takes the send when it can proceed and does nothing otherwise. *)
Definition notifyPending : state TCPPeer unit :=
  ch <- gets chPending ;;
  match send ch with
  | Some ch' => assign set_chPending ch'
  | None => ret tt
  end.

(** [func (p *TCPPeer) Send(out []byte) error] *)
Definition Send (out : bytes) : state TCPPeer consensus.error :=
  q <- gets pending ;;
  assign set_pending (append q out) ;;
  notifyPending ;;
  ret None.

(** One turn of the [for] loop of [txLoop]. The [select] has no [default]:
    it takes any case whose receive can proceed and blocks when none can,
    so a turn is a relation. The boolean tells whether the loop goes on. *)
Inductive txLoop_turn (p : TCPPeer) : bool -> TCPPeer -> Prop :=
| turn_pending ch' :
    recv (chPending p) = Some ch' ->
    txLoop_turn p true (set_chPending ch' p)
| turn_die d' :
    recv (die p) = Some d' ->
    txLoop_turn p false (set_die d' p).

(** A run of [Send] calls, one per message and in list order, with no
    reader of the queue in between. *)
Fixpoint sends (msgs : list bytes) : state TCPPeer unit :=
  match msgs with
  | [] => ret tt
  | m :: rest => Send m ;; sends rest
  end.

(** [n] consecutive calls of [notifyPending]. *)
Fixpoint notifies (n : nat) : state TCPPeer unit :=
  match n with
  | O => ret tt
  | S k => notifyPending ;; notifies k
  end.

End agent.

(** ** Package main: the configuration the client hands to the agent *)

Module main.

(** [type Quorum struct] *)
Record Quorum : Type := mkQuorum {
  State : bytes;
  Height : N;
  Keys : slice bytes
}.

Section run.

(** What the [run] command takes from outside the repository: the clock,
    the key parser of x509 ([None] is its error) and [bytes.Compare]. *)
Variable now : time.Time.
Variable ParseECPrivateKey : bytes -> option ecdsa.PrivateKey.
Variable bytes_Compare : bytes -> bytes -> Z.

(** [for k := range quorum.Keys { ... }], from index [k] on; [false] is
    the early [return err] of a key that does not parse. *)
Fixpoint range_Keys (id k : Z) (keys : list bytes) : state consensus.Config bool :=
  match keys with
  | [] => ret true
  | key :: rest =>
      match ParseECPrivateKey key with
      | None => ret false
      | Some priv =>
          (if (id =? k)%Z
           then assign consensus.set_PrivateKey (Some priv)
           else ret tt) ;;
          ps <- gets consensus.Participants ;;
          assign consensus.set_Participants (append ps (Some (ecdsa.Public priv))) ;;
          range_Keys id (k + 1)%Z rest
      end
  end.

(** The part of the [run] action that fills [config], up to the call of
    [agent.NewAgent]; [None] is a [return] with an error before that
    call. Nothing here assigns [config.StateHash]. *)
Definition run_config (quorum : Quorum) (id : Z) : option consensus.Config :=
  if (id >=? Z.of_nat (len (Keys quorum)))%Z then None else
  let (ok, config) :=
    runState
      (assign consensus.set_Epoch now ;;
       assign consensus.set_CurrentState (State quorum) ;;
       assign consensus.set_CurrentHeight (Height quorum) ;;
       ok <- range_Keys id 0 (elems (Keys quorum)) ;;
       if ok : bool then
         assign consensus.set_StateCompare (Some bytes_Compare) ;;
         assign consensus.set_StateValidate (Some (fun _ => true)) ;;
         ret true
       else ret false)
      consensus.new_Config in
  if ok : bool then Some config else None.

End run.

(** [&Quorum{}]: every field has its zero value. *)
Definition new_Quorum : Quorum := mkQuorum None 0 None.

Definition set_State (v : bytes) (q : Quorum) : Quorum :=
  mkQuorum v (Height q) (Keys q).

Definition set_Height (v : N) (q : Quorum) : Quorum :=
  mkQuorum (State q) v (Keys q).

Definition set_Keys (v : slice bytes) (q : Quorum) : Quorum :=
  mkQuorum (State q) (Height q) v.

(** The length of [initialData] in the [genkeys] action. *)
Definition initialData_len : nat := 1024.

Section genkeys.

(** What the [genkeys] command takes from outside the repository: the key
    drawn by the [i]-th call of [ecdsa.GenerateKey], the marshaller of x509
    and the random bytes [io.ReadFull] reads, by position; [None] is the
    error of a call. *)
Variable GenerateKey : nat -> option ecdsa.PrivateKey.
Variable MarshalECPrivateKey : ecdsa.PrivateKey -> option bytes.
Variable rand_Read : option (nat -> Byte.byte).

(** [for i := 0; i < count; i++ { ... }]: the [n] turns that are left when
    the counter is [i]; [false] is an early [return err]. *)
Fixpoint generate_keys (i n : nat) : state Quorum bool :=
  match n with
  | O => ret true
  | S n' =>
      match GenerateKey i with
      | None => ret false
      | Some privateKey =>
          match MarshalECPrivateKey privateKey with
          | None => ret false
          | Some bts =>
              ks <- gets Keys ;;
              assign set_Keys (append ks bts) ;;
              generate_keys (S i) n'
          end
      end
  end.

(** The part of the [genkeys] action that fills [quorum], up to the
    creation of the output file; [None] is a [return] with an error before
    that. [make([]byte, 1024)] is overwritten in full by a read that
    succeeds. *)
Definition genkeys_quorum (count : Z) : option Quorum :=
  let (ok, quorum) :=
    runState
      (ok <- generate_keys 0 (Z.to_nat count) ;;
       if ok : bool then
         match rand_Read with
         | None => ret false
         | Some rnd =>
             assign set_State (Some (map rnd (seq 0 initialData_len))) ;;
             assign set_Height 0%N ;;
             ret true
         end
       else ret false)
      new_Quorum in
  if ok : bool then Some quorum else None.

End genkeys.

End main.

(** ** Vocabulary of the properties *)

Module config_spec.
Import consensus.

(** The six fields [VerifyConfig] looks at, in the order of its checks. *)
Inductive Field : Type :=
| FEpoch
| FCurrentState
| FStateCompare
| FStateValidate
| FPrivateKey
| FParticipants.

Definition check_order : list Field :=
  [FEpoch; FCurrentState; FStateCompare; FStateValidate; FPrivateKey; FParticipants].

(** Position of a field in [check_order]. *)
Definition rank (f : Field) : nat :=
  match f with
  | FEpoch => 0
  | FCurrentState => 1
  | FStateCompare => 2
  | FStateValidate => 3
  | FPrivateKey => 4
  | FParticipants => 5
  end.

(** A field is missing or invalid. *)
Definition invalid (f : Field) (c : Config) : bool :=
  match f with
  | FEpoch => time.IsZero (Epoch c)
  | FCurrentState => is_nil (CurrentState c)
  | FStateCompare => is_nil (StateCompare c)
  | FStateValidate => is_nil (StateValidate c)
  | FPrivateKey => is_nil (PrivateKey c)
  | FParticipants => len (Participants c) <? 4
  end.

(** The error that names a field. *)
Definition field_error (f : Field) : Err :=
  match f with
  | FEpoch => ErrConfigEpoch
  | FCurrentState => ErrConfigStateNil
  | FStateCompare => ErrConfigLess
  | FStateValidate => ErrConfigValidateState
  | FPrivateKey => ErrConfigPrivateKey
  | FParticipants => ErrConfigParticipants
  end.

(** The earliest invalid field in the order of the checks, if any. *)
Definition first_invalid (c : Config) : option Field :=
  find (fun f => invalid f c) check_order.

(** Everything the spec asks of a configuration except the hasher. *)
Definition valid_but_hasher (c : Config) : Prop :=
  time.IsZero (Epoch c) = false /\
  CurrentState c <> None /\
  StateCompare c <> None /\
  StateValidate c <> None /\
  PrivateKey c <> None.

Definition sample_key : ecdsa.PrivateKey :=
  ecdsa.mkPrivateKey (ecdsa.mkPublicKey 1 2) 3.

(** A configuration with [n] participants, every other checked field set
    and no hasher. *)
Definition sample_config (n : nat) : Config :=
  mkConfig (time.mkTime 63700000000 0) 0 (Some []) (Some sample_key)
    (Some (repeat (Some (ecdsa.Public sample_key)) n))
    (Some (fun _ _ => 0%Z)) (Some (fun _ => true)) None.

(** Two calls in a row through the same pointer. *)
Definition VerifyConfig_twice : state Config (error * error) :=
  r1 <- VerifyConfig ;;
  r2 <- VerifyConfig ;;
  ret (r1, r2).

End config_spec.

Module peer_spec.
Import agent.

(** The peers the package can produce: made by [NewTCPPeer], then used
    through [Send] and [notifyPending] while [txLoop] takes turns. *)
Inductive reachable : TCPPeer -> Prop :=
| reach_new c : reachable (NewTCPPeer c)
| reach_Send p out : reachable p -> reachable (execState (Send out) p)
| reach_notify p : reachable p -> reachable (execState notifyPending p)
| reach_turn p b p' : reachable p -> txLoop_turn p b p' -> reachable p'.

Definition sample_conn : ptr net.Conn :=
  Some (net.mkConn (net.mkAddr "tcp"%string "10.0.0.2:4680"%string)).

End peer_spec.

(** Histories of a peer: calls of [Send] by the users of the peer and turns of
    the [txLoop] goroutine that go on, in the order in which they take the
    mutex or the channel. *)
Module peer_trace.
Import agent.

Inductive event : Type :=
| ev_Send (out : bytes)
| ev_turn.

Inductive exec : TCPPeer -> list event -> TCPPeer -> Prop :=
| exec_nil p : exec p [] p
| exec_Send p out tr p' :
    exec (execState (Send out) p) tr p' ->
    exec p (ev_Send out :: tr) p'
| exec_turn p p1 tr p' :
    txLoop_turn p true p1 ->
    exec p1 tr p' ->
    exec p (ev_turn :: tr) p'.

(** The messages handed to [Send] in a history, in call order. *)
Fixpoint sent (tr : list event) : list bytes :=
  match tr with
  | [] => []
  | ev_Send out :: tr' => out :: sent tr'
  | ev_turn :: tr' => sent tr'
  end.

(** The number of [txLoop] turns in a history. *)
Fixpoint turns (tr : list event) : nat :=
  match tr with
  | [] => 0
  | ev_Send _ :: tr' => turns tr'
  | ev_turn :: tr' => S (turns tr')
  end.

(** The number of notifications buffered in a channel. *)
Definition buffered_count (ch : chan) : nat :=
  match ch with
  | nil_chan => 0
  | buffered _ q => q
  end.

End peer_trace.

(** Sample surroundings of the client: a clock reading, keys numbered by
    their draw, a marshaller that writes the number of a key in unary and the
    parser that reads it back, and a random source of zero bytes. *)
Module client_samples.

Definition sample_now : time.Time := time.mkTime 63700000000 0.

Definition key_number (n : nat) : ecdsa.PrivateKey :=
  ecdsa.mkPrivateKey (ecdsa.mkPublicKey (Z.of_nat n) 0) (Z.of_nat n).

Definition sample_GenerateKey (j : nat) : option ecdsa.PrivateKey :=
  Some (key_number j).

Definition sample_Marshal (k : ecdsa.PrivateKey) : option bytes :=
  Some (Some (repeat Byte.x01 (Z.to_nat (ecdsa.D k)))).

Definition sample_Parse (b : bytes) : option ecdsa.PrivateKey :=
  Some (key_number (len b)).

Definition sample_Compare (a b : bytes) : Z := 0.

Definition sample_rand : option (nat -> Byte.byte) := Some (fun _ => Byte.x00).

(** A quorum file with the marshalled keys number 0 to [n - 1]. *)
Definition sample_quorum (n : nat) : main.Quorum :=
  main.mkQuorum (Some [Byte.x2a]) 7
    (Some (map (fun j => Some (repeat Byte.x01 j)) (seq 0 n))).

End client_samples.

(** * Properties of VerifyConfig *)

(** Decide the test of the outermost conditional and simplify both branches. *)
Ltac case_test :=
  match goal with
  | |- context [if ?b then _ else _] => destruct b eqn:?; cbn
  end.

Section VerifyConfig_facts.
Import consensus config_spec.

(** The monadic body computes the error of the first invalid field and
    hands the configuration back as it got it. *)
Lemma VerifyConfig_run (c : Config) :
  runState VerifyConfig c = (option_map field_error (first_invalid c), c).
Proof.
  unfold VerifyConfig, first_invalid. cbn.
  repeat (case_test; [reflexivity|]). reflexivity.
Qed.

Lemma VerifyConfig_eval (c : Config) :
  evalState VerifyConfig c = option_map field_error (first_invalid c).
Proof. unfold evalState. now rewrite VerifyConfig_run. Qed.

Lemma VerifyConfig_exec (c : Config) : execState VerifyConfig c = c.
Proof. unfold execState. now rewrite VerifyConfig_run. Qed.

Lemma is_nil_false {A} (o : option A) : o <> None -> is_nil o = false.
Proof. destruct o; [reflexivity | congruence]. Qed.

Lemma is_nil_true {A} (o : option A) : o = None -> is_nil o = true.
Proof. intros ->. reflexivity. Qed.

(** With the five fields before [Participants] in order, the result only
    depends on the number of participants. *)
Lemma VerifyConfig_valid_but_hasher (c : Config) :
  valid_but_hasher c ->
  evalState VerifyConfig c =
    if len (Participants c) <? 4 then Some ErrConfigParticipants else None.
Proof.
  intros (He & Hs & Hc & Hv & Hk).
  rewrite VerifyConfig_eval. unfold first_invalid. cbn.
  rewrite He, !is_nil_false by assumption.
  unfold Nat.ltb. now case_test.
Qed.

Lemma sample_config_valid (n : nat) : valid_but_hasher (sample_config n).
Proof. repeat split; cbn; congruence. Qed.

Lemma sample_config_len (n : nat) : len (Participants (sample_config n)) = n.
Proof. unfold len. cbn. apply repeat_length. Qed.

End VerifyConfig_facts.

Section VerifyConfig_claims.
Import consensus config_spec.

(** The result does not depend on the hasher. *)
Lemma VerifyConfig_StateHash_irrelevant (c : Config) h :
  evalState VerifyConfig (set_StateHash h c) = evalState VerifyConfig c.
Proof. rewrite !VerifyConfig_eval. reflexivity. Qed.

(** C1, as the specification words it, does not hold: it is not the case
    that every configuration without a hasher, valid in every other
    respect and with at least four participants, is answered with an
    error. [sample_config 4] is such a configuration and [VerifyConfig]
    returns nil on it. *)
Lemma VerifyConfig_nil_StateHash_not_rejected :
  ~ (forall c : Config,
        StateHash c = None ->
        time.IsZero (Epoch c) = false ->
        CurrentState c <> None ->
        StateCompare c <> None ->
        StateValidate c <> None ->
        PrivateKey c <> None ->
        4 <= len (Participants c) ->
        exists e : Err, evalState VerifyConfig c = Some e).
Proof.
  intros H.
  destruct (H (sample_config 4)) as [e He];
    try (cbn; congruence); try (cbn; lia).
  vm_compute in He. discriminate He.
Qed.

(** C1, amended: a configuration whose hasher is nil while the epoch is
    set, the state, the comparator, the validator and the private key are
    present and there are at least four participants is accepted:
    [VerifyConfig] returns nil and leaves the configuration as it is. *)
Theorem VerifyConfig_accepts_nil_StateHash (c : Config) :
  StateHash c = None ->
  valid_but_hasher c ->
  4 <= len (Participants c) ->
  runState VerifyConfig c = (None, c).
Proof.
  intros _ Hv Hn.
  pose proof (VerifyConfig_valid_but_hasher c Hv) as He.
  pose proof (VerifyConfig_exec c) as Hx.
  apply Nat.ltb_ge in Hn. rewrite Hn in He.
  unfold evalState, execState in *.
  destruct (runState VerifyConfig c) as [r c']. cbn in *.
  subst. reflexivity.
Qed.

Lemma VerifyConfig_accepts_nil_StateHash_witness :
  StateHash (sample_config 4) = None /\
  valid_but_hasher (sample_config 4) /\
  4 <= len (Participants (sample_config 4)) /\
  runState VerifyConfig (sample_config 4) = (None, sample_config 4).
Proof.
  assert (Hh : StateHash (sample_config 4) = None) by reflexivity.
  assert (Hv : valid_but_hasher (sample_config 4))
    by (repeat split; cbn; congruence).
  assert (Hn : 4 <= len (Participants (sample_config 4))) by (cbn; lia).
  refine (conj Hh (conj Hv (conj Hn _))).
  exact (VerifyConfig_accepts_nil_StateHash (sample_config 4) Hh Hv Hn).
Defined.

(** C2: with the epoch set and the state, the comparator, the validator
    and the private key present, [VerifyConfig] returns an error exactly
    when there are fewer than four participants, and that error is
    [ErrConfigParticipants]; three participants fail with it, four pass. *)
Theorem VerifyConfig_participants_minimum (c : Config) :
  time.IsZero (Epoch c) = false ->
  CurrentState c <> None ->
  StateCompare c <> None ->
  StateValidate c <> None ->
  PrivateKey c <> None ->
  ((exists e, evalState VerifyConfig c = Some e) <->
     len (Participants c) < ConfigMinimumParticipants) /\
  (len (Participants c) < ConfigMinimumParticipants ->
     evalState VerifyConfig c = Some ErrConfigParticipants) /\
  (len (Participants c) = 3 ->
     evalState VerifyConfig c = Some ErrConfigParticipants) /\
  (len (Participants c) = 4 -> evalState VerifyConfig c = None).
Proof.
  intros He Hs Hc Hv Hk.
  assert (Hr := VerifyConfig_valid_but_hasher c
                  (conj He (conj Hs (conj Hc (conj Hv Hk))))).
  unfold ConfigMinimumParticipants.
  rewrite Hr.
  destruct (Nat.ltb_spec (len (Participants c)) 4) as [Hlt|Hge];
    repeat split; intros; try lia; try reflexivity.
  - now exists ErrConfigParticipants.
  - destruct H as [e H]. discriminate H.
Qed.

Lemma VerifyConfig_participants_minimum_witness :
  evalState VerifyConfig (sample_config 3) = Some ErrConfigParticipants /\
  evalState VerifyConfig (sample_config 4) = None.
Proof.
  split.
  - refine (proj1 (proj2 (proj2
      (VerifyConfig_participants_minimum (sample_config 3) _ _ _ _ _))) _);
      cbn; (reflexivity || congruence).
  - refine (proj2 (proj2 (proj2
      (VerifyConfig_participants_minimum (sample_config 4) _ _ _ _ _))) _);
      cbn; (reflexivity || congruence).
Defined.

(** C3: each missing or invalid field has an error of its own. A zero
    [Epoch] gives [ErrConfigEpoch]; with the checks before it passed, a nil
    [CurrentState] gives [ErrConfigStateNil], a nil [StateCompare] gives
    [ErrConfigLess], a nil [StateValidate] gives [ErrConfigValidateState],
    a nil [PrivateKey] gives [ErrConfigPrivateKey] and fewer than four
    [Participants] give [ErrConfigParticipants]; the six errors are
    pairwise different; when all six conditions hold the result is nil. *)
Theorem VerifyConfig_field_errors :
  (forall c, time.IsZero (Epoch c) = true ->
             evalState VerifyConfig c = Some ErrConfigEpoch) /\
  (forall c, time.IsZero (Epoch c) = false ->
             CurrentState c = None ->
             evalState VerifyConfig c = Some ErrConfigStateNil) /\
  (forall c, time.IsZero (Epoch c) = false ->
             CurrentState c <> None ->
             StateCompare c = None ->
             evalState VerifyConfig c = Some ErrConfigLess) /\
  (forall c, time.IsZero (Epoch c) = false ->
             CurrentState c <> None ->
             StateCompare c <> None ->
             StateValidate c = None ->
             evalState VerifyConfig c = Some ErrConfigValidateState) /\
  (forall c, time.IsZero (Epoch c) = false ->
             CurrentState c <> None ->
             StateCompare c <> None ->
             StateValidate c <> None ->
             PrivateKey c = None ->
             evalState VerifyConfig c = Some ErrConfigPrivateKey) /\
  (forall c, time.IsZero (Epoch c) = false ->
             CurrentState c <> None ->
             StateCompare c <> None ->
             StateValidate c <> None ->
             PrivateKey c <> None ->
             len (Participants c) < 4 ->
             evalState VerifyConfig c = Some ErrConfigParticipants) /\
  (forall c, time.IsZero (Epoch c) = false ->
             CurrentState c <> None ->
             StateCompare c <> None ->
             StateValidate c <> None ->
             PrivateKey c <> None ->
             4 <= len (Participants c) ->
             evalState VerifyConfig c = None) /\
  NoDup [ErrConfigEpoch; ErrConfigStateNil; ErrConfigLess;
         ErrConfigValidateState; ErrConfigPrivateKey; ErrConfigParticipants].
Proof.
  repeat apply conj; try intros c;
    try (rewrite VerifyConfig_eval; unfold first_invalid; cbn [check_order find invalid];
         intros;
         repeat match goal with
                | H : _ <> None |- _ => apply is_nil_false in H
                | H : _ = None |- _ => apply is_nil_true in H
                | H : _ < 4 |- _ => apply Nat.ltb_lt in H
                | H : 4 <= _ |- _ => apply Nat.ltb_ge in H
                | H : _ = true |- _ => rewrite H
                | H : _ = false |- _ => rewrite H
                end;
         reflexivity).
  repeat constructor; cbn; intuition discriminate.
Qed.

Lemma VerifyConfig_field_errors_witness :
  evalState VerifyConfig (set_Epoch (time.mkTime 0 0) (sample_config 4))
    = Some ErrConfigEpoch /\
  evalState VerifyConfig (set_CurrentState None (sample_config 4))
    = Some ErrConfigStateNil /\
  evalState VerifyConfig (set_StateCompare None (sample_config 4))
    = Some ErrConfigLess /\
  evalState VerifyConfig (set_StateValidate None (sample_config 4))
    = Some ErrConfigValidateState /\
  evalState VerifyConfig (set_PrivateKey None (sample_config 4))
    = Some ErrConfigPrivateKey /\
  evalState VerifyConfig (set_Participants None (sample_config 4))
    = Some ErrConfigParticipants /\
  evalState VerifyConfig (sample_config 4) = None.
Proof.
  destruct VerifyConfig_field_errors
    as (H1 & H2 & H3 & H4 & H5 & H6 & H7 & _).
  repeat apply conj.
  - apply H1; reflexivity.
  - apply H2; reflexivity.
  - apply H3; cbn; (reflexivity || congruence).
  - apply H4; cbn; (reflexivity || congruence).
  - apply H5; cbn; (reflexivity || congruence).
  - apply H6; cbn; (reflexivity || congruence || lia).
  - apply H7; cbn; (reflexivity || congruence || lia).
Defined.

(** The earliest invalid field is the one with no invalid field before
    it. *)
Lemma first_invalid_first (c : Config) (f : Field) :
  invalid f c = true ->
  (forall g, rank g < rank f -> invalid g c = false) ->
  first_invalid c = Some f.
Proof.
  intros Hf Hlt. unfold first_invalid, check_order, find.
  destruct f;
    rewrite ?(Hlt FEpoch), ?(Hlt FCurrentState), ?(Hlt FStateCompare),
            ?(Hlt FStateValidate), ?(Hlt FPrivateKey) by (cbn; lia);
    rewrite Hf; reflexivity.
Qed.

(** C8: the checks run in the order Epoch, CurrentState, StateCompare,
    StateValidate, PrivateKey, Participants and the first failing one
    decides: the result is the error of the earliest invalid field of that
    order, whatever the later fields hold; a zero Epoch together with a nil
    PrivateKey gives [ErrConfigEpoch], not [ErrConfigPrivateKey]. *)
Theorem VerifyConfig_first_failing_check :
  (forall c, evalState VerifyConfig c
             = option_map field_error (find (fun f => invalid f c) check_order)) /\
  (forall c f,
      invalid f c = true ->
      (forall g, rank g < rank f -> invalid g c = false) ->
      evalState VerifyConfig c = Some (field_error f)) /\
  (forall c,
      time.IsZero (Epoch c) = true ->
      PrivateKey c = None ->
      evalState VerifyConfig c = Some ErrConfigEpoch /\
      evalState VerifyConfig c <> Some ErrConfigPrivateKey).
Proof.
  split; [exact VerifyConfig_eval|]. split.
  - intros c f Hf Hlt.
    now rewrite VerifyConfig_eval, (first_invalid_first c f Hf Hlt).
  - intros c He _.
    rewrite VerifyConfig_eval, (first_invalid_first c FEpoch He).
    + split; [reflexivity | discriminate].
    + cbn; intros; lia.
Qed.

Lemma VerifyConfig_first_failing_check_witness :
  evalState VerifyConfig
    (set_Epoch (time.mkTime 0 0) (set_PrivateKey None (sample_config 2)))
    = Some ErrConfigEpoch /\
  evalState VerifyConfig (set_PrivateKey None (sample_config 2))
    = Some ErrConfigPrivateKey.
Proof.
  destruct VerifyConfig_first_failing_check as (_ & Hfirst & Hex).
  split.
  - apply Hex; reflexivity.
  - apply (Hfirst _ FPrivateKey); [reflexivity|].
    intros g Hg. destruct g; cbn in Hg; try lia; reflexivity.
Defined.

(** C10: [VerifyConfig] only reads. After the call the configuration, and
    so each of its eight fields, is what it was before, and a second call
    on it returns what the first returned. *)
Theorem VerifyConfig_read_only (c : Config) :
  let c' := execState VerifyConfig c in
  c' = c /\
  Epoch c' = Epoch c /\
  CurrentHeight c' = CurrentHeight c /\
  CurrentState c' = CurrentState c /\
  PrivateKey c' = PrivateKey c /\
  Participants c' = Participants c /\
  StateCompare c' = StateCompare c /\
  StateValidate c' = StateValidate c /\
  StateHash c' = StateHash c /\
  runState VerifyConfig_twice c
    = ((evalState VerifyConfig c, evalState VerifyConfig c), c).
Proof.
  cbv zeta. rewrite VerifyConfig_exec.
  repeat (split; [reflexivity|]).
  unfold VerifyConfig_twice, evalState. cbn -[VerifyConfig].
  rewrite !VerifyConfig_run. reflexivity.
Qed.

End VerifyConfig_claims.

(** * The client's configuration *)

Section client_config.
Import consensus config_spec.

Variable now : time.Time.
Variable ParseECPrivateKey : bytes -> option ecdsa.PrivateKey.
Variable bytes_Compare : bytes -> bytes -> Z.

(** The loop over the keys never touches the hasher. *)
Lemma range_Keys_StateHash (keys : list bytes) :
  forall (id k : Z) (c : Config),
    StateHash (execState (main.range_Keys ParseECPrivateKey id k keys) c)
    = StateHash c.
Proof.
  induction keys as [|key rest IH]; intros id k c; [reflexivity|].
  unfold execState in *. cbn [main.range_Keys].
  destruct (ParseECPrivateKey key) as [priv|]; [|reflexivity].
  cbn -[main.range_Keys].
  destruct (id =? k)%Z; cbn -[main.range_Keys]; rewrite IH; reflexivity.
Qed.

(** The configuration the [run] command hands to [agent.NewAgent] has a
    nil hasher, whatever the quorum file holds. *)
Lemma run_config_StateHash (quorum : main.Quorum) (id : Z) (config : Config) :
  main.run_config now ParseECPrivateKey bytes_Compare quorum id = Some config ->
  StateHash config = None.
Proof.
  unfold main.run_config.
  destruct (id >=? _)%Z; [discriminate|].
  cbn -[main.range_Keys].
  pose proof (range_Keys_StateHash (elems (main.Keys quorum)) id 0
    (mkConfig now (main.Height quorum) (main.State quorum) None None None None None))
    as Hh.
  unfold execState in Hh.
  destruct (runState _ _) as [[|] c']; cbn in *; [|discriminate].
  intros [= <-]. exact Hh.
Qed.

End client_config.

(** With four keys in the quorum file, that configuration passes
    [VerifyConfig]: the client runs without a hasher. *)
Example run_config_accepted :
  let quorum := main.mkQuorum (Some []) 0 (Some (repeat (Some []) 4)) in
  exists config,
    main.run_config (time.mkTime 63700000000 0)
      (fun _ => Some config_spec.sample_key) (fun _ _ => 0%Z) quorum 1
    = Some config /\
    consensus.StateHash config = None /\
    evalState consensus.VerifyConfig config = None.
Proof. eexists. repeat split. Qed.

(** * Properties of the TCP peer *)

Section peer_facts.
Import agent peer_spec.

Lemma notifyPending_run (p : TCPPeer) :
  runState notifyPending p =
    (tt, match send (chPending p) with
         | Some ch' => set_chPending ch' p
         | None => p
         end).
Proof. unfold notifyPending. cbn. destruct (send (chPending p)); reflexivity. Qed.

Lemma Send_run (p : TCPPeer) (out : bytes) :
  runState (Send out) p =
    (None, execState notifyPending (set_pending (append (pending p) out) p)).
Proof.
  unfold Send, execState. cbn -[notifyPending].
  rewrite notifyPending_run. reflexivity.
Qed.

(** [notifyPending] writes no field but [chPending]. *)
Lemma notifyPending_frame (p : TCPPeer) :
  let p' := execState notifyPending p in
  conn p' = conn p /\ publicKey p' = publicKey p /\
  pending p' = pending p /\ die p' = die p.
Proof.
  unfold execState. rewrite notifyPending_run. cbn.
  destruct (send (chPending p)); repeat split.
Qed.

Lemma Send_pending (p : TCPPeer) (out : bytes) :
  pending (execState (Send out) p) = append (pending p) out.
Proof.
  unfold execState at 1. rewrite Send_run. cbn -[notifyPending].
  now rewrite (proj1 (proj2 (proj2 (notifyPending_frame _)))).
Qed.

Lemma sends_cons (p : TCPPeer) (m : bytes) (rest : list bytes) :
  execState (sends (m :: rest)) p = execState (sends rest) (execState (Send m) p).
Proof.
  unfold execState. cbn -[Send]. destruct (runState (Send m) p). reflexivity.
Qed.

Lemma notifies_succ (p : TCPPeer) (n : nat) :
  execState (notifies (S n)) p = execState (notifies n) (execState notifyPending p).
Proof.
  unfold execState. cbn -[notifyPending].
  destruct (runState notifyPending p). reflexivity.
Qed.

(** A run of [Send] calls leaves the old messages in place and puts the
    new ones behind them, in call order. *)
Lemma sends_elems (msgs : list bytes) :
  forall p, elems (pending (execState (sends msgs) p)) = elems (pending p) ++ msgs.
Proof.
  induction msgs as [|m rest IH]; intros p.
  - cbn. now rewrite app_nil_r.
  - rewrite sends_cons, IH, Send_pending. cbn. now rewrite <- app_assoc.
Qed.

(** A turn of [txLoop] takes a notification and no message. *)
Lemma txLoop_turn_frame (p p' : TCPPeer) (b : bool) :
  txLoop_turn p b p' ->
  pending p' = pending p /\ publicKey p' = publicKey p /\ conn p' = conn p.
Proof. intros [ch' _|d' _]; repeat split. Qed.

(** What holds of every peer the package produces: no key is bound, the
    notification channel has room for one element, and [die] is
    unbuffered and empty. *)
Lemma reachable_inv (p : TCPPeer) :
  reachable p ->
  publicKey p = None /\
  die p = buffered 0 0 /\
  (chPending p = buffered 1 0 \/ chPending p = buffered 1 1).
Proof.
  induction 1 as [c | p out _ IH | p _ IH | p b p' _ IH Hturn].
  - cbn. auto.
  - destruct IH as (Hk & Hd & Hc).
    unfold execState. rewrite Send_run. unfold execState.
    rewrite notifyPending_run. cbn.
    destruct Hc as [Hc | Hc]; rewrite Hc; cbn; auto.
  - destruct IH as (Hk & Hd & Hc).
    unfold execState. rewrite notifyPending_run.
    destruct Hc as [Hc | Hc]; rewrite Hc; cbn; auto.
  - destruct IH as (Hk & Hd & Hc).
    destruct Hturn as [ch' Hr | d' Hr].
    + cbn. repeat split; try assumption.
      destruct Hc as [Hc | Hc]; rewrite Hc in Hr; cbn in Hr;
        [discriminate | injection Hr as <-; auto].
    + rewrite Hd in Hr. discriminate Hr.
Qed.

(** After a call of [notifyPending] on a channel of capacity one, one
    notification is buffered. *)
Lemma notifyPending_full (p : TCPPeer) :
  chPending p = buffered 1 0 \/ chPending p = buffered 1 1 ->
  chPending (execState notifyPending p) = buffered 1 1.
Proof.
  intros Hc. unfold execState. rewrite notifyPending_run.
  destruct Hc as [Hc | Hc]; rewrite Hc; cbn; auto.
Qed.

Lemma notifies_full (n : nat) :
  forall p,
    chPending p = buffered 1 1 ->
    chPending (execState (notifies n) p) = buffered 1 1.
Proof.
  induction n as [|n IH]; intros p Hc; [exact Hc|].
  rewrite notifies_succ. apply IH, notifyPending_full. now right.
Qed.

End peer_facts.

Section peer_claims.
Import agent peer_spec.

(** C4, as the specification words it, does not hold: no number bounds
    the length of the pending slice over all runs of [Send] calls, not even
    from a peer fresh out of [NewTCPPeer]. *)
Lemma pending_not_bounded :
  ~ (exists B : nat,
       forall (c : ptr net.Conn) (msgs : list bytes),
         len (pending (execState (sends msgs) (NewTCPPeer c))) <= B).
Proof.
  intros [B HB].
  specialize (HB None (repeat None (S B))).
  unfold len in HB. rewrite sends_elems, length_app, repeat_length in HB.
  lia.
Qed.

(** C4, amended: the pending queue has no bound. Whatever is pending, a
    [Send] returns nil and makes the queue one longer; a run of [Send]
    calls with no consumer keeps the messages that were pending and puts
    every new message behind them, none dropped and none merged, so the
    length grows by the number of calls and exceeds any given bound after
    enough of them. *)
Theorem sends_grow_pending (p : TCPPeer) (msgs : list bytes) :
  elems (pending (execState (sends msgs) p)) = elems (pending p) ++ msgs /\
  len (pending (execState (sends msgs) p)) = len (pending p) + List.length msgs /\
  (forall out : bytes,
      evalState (Send out) p = None /\
      len (pending (execState (Send out) p)) = S (len (pending p))) /\
  (forall B : nat, exists more : list bytes,
      B < len (pending (execState (sends more) p))).
Proof.
  split; [apply sends_elems|]. split; [|split].
  - unfold len. now rewrite sends_elems, length_app.
  - intros out. split.
    + unfold evalState. now rewrite Send_run.
    + rewrite Send_pending. unfold len, append. cbn.
      rewrite length_app. cbn. lia.
  - intros B. exists (repeat None (S B)).
    unfold len. rewrite sends_elems, length_app, repeat_length. lia.
Qed.

(** C5: [Send] never fails. On every peer and for every byte slice it
    returns the nil error and leaves the message appended to the pending
    queue; the connection, the key and [die] stay as they were. *)
Theorem Send_enqueues (p : TCPPeer) (out : bytes) :
  let p' := execState (Send out) p in
  evalState (Send out) p = None /\
  pending p' = append (pending p) out /\
  elems (pending p') = elems (pending p) ++ [out] /\
  conn p' = conn p /\ publicKey p' = publicKey p /\ die p' = die p.
Proof.
  cbv zeta. rewrite Send_pending.
  unfold evalState, execState. rewrite Send_run. cbn -[notifyPending].
  destruct (notifyPending_frame (set_pending (append (pending p) out) p))
    as (Hc & Hk & _ & Hd).
  rewrite Hc, Hk, Hd. repeat split.
Qed.

(** C6: per-peer FIFO. [Send a] followed by [Send b] on a peer whose
    pending queue is [q] leaves [q ++ [a; b]]; any run of [Send] calls
    appends the messages in call order, and the messages that were pending
    stay where they were. *)
Theorem Send_fifo :
  (forall p a b,
      elems (pending (execState (Send a ;; Send b) p))
      = elems (pending p) ++ [a; b]) /\
  (forall p msgs,
      elems (pending (execState (sends msgs) p)) = elems (pending p) ++ msgs) /\
  (forall p msgs,
      firstn (len (pending p)) (elems (pending (execState (sends msgs) p)))
      = elems (pending p)).
Proof.
  split; [|split].
  - intros p a b.
    assert (Hb : execState (Send a ;; Send b) p
                 = execState (Send b) (execState (Send a) p)).
    { unfold execState. cbn -[Send]. destruct (runState (Send a) p). reflexivity. }
    rewrite Hb, !Send_pending. cbn. now rewrite <- app_assoc.
  - intros p msgs. apply sends_elems.
  - intros p msgs. rewrite sends_elems. unfold len.
    rewrite firstn_app, firstn_all, Nat.sub_diag. cbn. apply app_nil_r.
Qed.

(** C7: the notifier coalesces and never blocks. [NewTCPPeer] makes the
    notification channel with capacity one and nothing buffered; on every
    peer the package produces, any positive number of consecutive
    [notifyPending] calls leaves exactly one notification buffered and a
    second call changes nothing the first did not; a call that finds no
    room in the channel returns with the peer as it was. *)
Theorem notifyPending_coalesces :
  (forall c, chPending (NewTCPPeer c) = buffered 1 0) /\
  (forall p n, reachable p ->
               chPending (execState (notifies (S n)) p) = buffered 1 1) /\
  (forall p, reachable p ->
             runState (notifyPending ;; notifyPending) p
             = runState notifyPending p) /\
  (forall p, send (chPending p) = None ->
             runState notifyPending p = (tt, p)).
Proof.
  split; [reflexivity|]. split; [|split].
  - intros p n Hp. rewrite notifies_succ.
    apply notifies_full, notifyPending_full, (reachable_inv p Hp).
  - intros p Hp. destruct (reachable_inv p Hp) as (_ & _ & Hc).
    cbn -[notifyPending]. rewrite !notifyPending_run.
    destruct Hc as [Hc | Hc]; rewrite Hc; cbn; rewrite ?Hc; reflexivity.
  - intros p Hfull. rewrite notifyPending_run, Hfull. reflexivity.
Qed.

Lemma notifyPending_coalesces_witness :
  let p := execState (Send (Some [])) (NewTCPPeer sample_conn) in
  chPending (execState (notifies 3) p) = buffered 1 1 /\
  runState (notifyPending ;; notifyPending) p = runState notifyPending p /\
  runState notifyPending p = (tt, p).
Proof.
  cbv zeta.
  destruct notifyPending_coalesces as (_ & Hn & Hi & Hf).
  assert (Hp : reachable (execState (Send (Some [])) (NewTCPPeer sample_conn)))
    by (apply reach_Send, reach_new).
  split; [|split].
  - apply Hn, Hp.
  - apply Hi, Hp.
  - apply Hf. reflexivity.
Defined.

(** C9: a peer fresh out of [NewTCPPeer] is unauthenticated. Its public
    key is nil and [GetPublicKey] returns nil, which is the field read and
    nothing written; it stays nil on every peer the package produces, so no
    operation at hand binds a key. *)
Theorem NewTCPPeer_unauthenticated :
  (forall c, publicKey (NewTCPPeer c) = None) /\
  (forall c, runState GetPublicKey (NewTCPPeer c) = (None, NewTCPPeer c)) /\
  (forall p, runState GetPublicKey p = (publicKey p, p)) /\
  (forall p, reachable p -> evalState GetPublicKey p = None).
Proof.
  repeat split.
  intros p Hp. destruct (reachable_inv p Hp) as (Hk & _).
  unfold evalState. cbn. exact Hk.
Qed.

Lemma NewTCPPeer_unauthenticated_witness :
  evalState GetPublicKey
    (execState (sends [Some []; None]) (NewTCPPeer sample_conn)) = None.
Proof.
  apply (proj2 (proj2 (proj2 NewTCPPeer_unauthenticated))).
  rewrite !sends_cons. cbn [sends execState runState ret Monad_state snd].
  apply reach_Send, reach_Send, reach_new.
Defined.

End peer_claims.

(** * Histories of a peer: what [txLoop] and [Send] do to each other *)

Section peer_histories.
Import agent peer_spec peer_trace.

(** A history from a peer the package produces ends in such a peer. *)
Lemma exec_reachable (p p' : TCPPeer) (tr : list event) :
  exec p tr p' -> reachable p -> reachable p'.
Proof.
  induction 1 as [p | p out tr p' _ IH | p p1 tr p' Hturn _ IH]; intros Hp.
  - exact Hp.
  - apply IH, reach_Send, Hp.
  - apply IH. exact (reach_turn p true p1 Hp Hturn).
Qed.

(** What a turn of [txLoop] can be on a peer the package produces. *)
Lemma reachable_turn (p p' : TCPPeer) (b : bool) :
  reachable p -> txLoop_turn p b p' ->
  b = true /\ chPending p = buffered 1 1 /\ p' = set_chPending (buffered 1 0) p.
Proof.
  intros Hp Hturn. destruct (reachable_inv p Hp) as (_ & Hd & Hc).
  destruct Hturn as [ch' Hr | d' Hr].
  - destruct Hc as [Hc | Hc]; rewrite Hc in Hr; cbn in Hr; [discriminate|].
    injection Hr as <-. auto.
  - rewrite Hd in Hr. discriminate Hr.
Qed.

Lemma reachable_Send_chPending (p : TCPPeer) (out : bytes) :
  reachable p -> chPending (execState (Send out) p) = buffered 1 1.
Proof.
  intros Hp. destruct (reachable_inv p Hp) as (_ & _ & Hc).
  unfold execState at 1. rewrite Send_run. cbn -[notifyPending].
  apply notifyPending_full. exact Hc.
Qed.

Lemma exec_pending (p p' : TCPPeer) (tr : list event) :
  exec p tr p' ->
  elems (pending p') = elems (pending p) ++ sent tr.
Proof.
  induction 1 as [p | p out tr p' _ IH | p p1 tr p' Hturn _ IH]; cbn [sent].
  - now rewrite app_nil_r.
  - rewrite IH, Send_pending. cbn. now rewrite <- app_assoc.
  - rewrite IH. now rewrite (proj1 (txLoop_turn_frame p p1 true Hturn)).
Qed.

(** Turns use up notifications and only a [Send] makes one. *)
Lemma exec_turns_le (q q' : TCPPeer) (tr : list event) :
  exec q tr q' -> reachable q ->
  turns tr + buffered_count (chPending q')
  <= List.length (sent tr) + buffered_count (chPending q).
Proof.
  induction 1 as [q | q out tr q' _ IH | q q1 tr q' Hturn _ IH];
    intros Hq; cbn [turns sent List.length].
  - lia.
  - specialize (IH (reach_Send q out Hq)).
    rewrite (reachable_Send_chPending q out Hq) in IH. cbn in IH. lia.
  - specialize (IH (reach_turn q true q1 Hq Hturn)).
    destruct (reachable_turn q q1 true Hq Hturn) as (_ & Hc & ->).
    rewrite Hc. cbn in IH |- *. lia.
Qed.

(** X1: the pending queue is a log of everything sent. Along any history of
    [Send] calls and [txLoop] turns, from any peer, the queue at the end is
    the queue at the start followed by all messages sent, in call order:
    a turn of [txLoop] takes nothing out of it. *)
Theorem exec_pending_log (p p' : TCPPeer) (tr : list event) :
  exec p tr p' ->
  elems (pending p') = elems (pending p) ++ sent tr.
Proof. apply exec_pending. Qed.

Lemma exec_pending_log_witness :
  let p := NewTCPPeer sample_conn in
  let p1 := execState (Send (Some [])) p in
  let p2 := set_chPending (buffered 1 0) p1 in
  let p3 := execState (Send None) p2 in
  elems (pending p3) = elems (pending p) ++ [Some []; None].
Proof.
  cbv zeta.
  apply (exec_pending_log _ _ [ev_Send (Some []); ev_turn; ev_Send None]).
  apply exec_Send. eapply exec_turn.
  - apply turn_pending. reflexivity.
  - apply exec_Send, exec_nil.
Defined.

(** X2: [txLoop] never returns. On a peer the package produces, a turn of
    the loop can only take the notification case: it finds exactly one
    notification buffered, takes it, changes nothing else and the loop goes
    on; the case of [die] is never taken. *)
Theorem txLoop_never_returns (p p' : TCPPeer) (b : bool) :
  reachable p ->
  txLoop_turn p b p' ->
  b = true /\
  chPending p = buffered 1 1 /\
  chPending p' = buffered 1 0 /\
  pending p' = pending p /\ conn p' = conn p /\
  publicKey p' = publicKey p /\ die p' = die p.
Proof.
  intros Hp Hturn.
  destruct (reachable_turn p p' b Hp Hturn) as (Hb & Hc & ->).
  repeat split; assumption.
Qed.

Lemma txLoop_never_returns_witness :
  let p := execState (Send (Some [])) (NewTCPPeer sample_conn) in
  chPending p = buffered 1 1 /\
  pending (set_chPending (buffered 1 0) p) = pending p.
Proof.
  cbv zeta.
  assert (Hp : reachable (execState (Send (Some [])) (NewTCPPeer sample_conn)))
    by apply reach_Send, reach_new.
  assert (Hturn : txLoop_turn (execState (Send (Some [])) (NewTCPPeer sample_conn))
                    true
                    (set_chPending (buffered 1 0)
                       (execState (Send (Some [])) (NewTCPPeer sample_conn))))
    by (apply turn_pending; reflexivity).
  destruct (txLoop_never_returns _ _ _ Hp Hturn) as (_ & Hc & _ & Hq & _).
  exact (conj Hc Hq).
Defined.

(** X3: no wake-up is lost. After a [Send] on a peer the package produces,
    whatever happened before, [txLoop] can take a turn. *)
Theorem Send_wakes_txLoop (p : TCPPeer) (out : bytes) :
  reachable p ->
  exists p', txLoop_turn (execState (Send out) p) true p'.
Proof.
  intros Hp. eexists. apply turn_pending.
  rewrite (reachable_Send_chPending p out Hp). reflexivity.
Qed.

Lemma Send_wakes_txLoop_witness :
  exists p', txLoop_turn
               (execState (Send None)
                  (set_chPending (buffered 1 0)
                     (execState (Send (Some [])) (NewTCPPeer sample_conn))))
               true p'.
Proof.
  apply Send_wakes_txLoop.
  eapply reach_turn; [apply reach_Send, reach_new|].
  apply turn_pending. reflexivity.
Defined.

(** X4: wake-ups are coalesced. However many messages a run of [Send] calls
    has queued on a peer the package produces, [txLoop] takes one turn and
    then blocks: no second turn is possible before the next [Send]. A fresh
    peer gives the loop no turn at all. *)
Theorem txLoop_one_turn_per_burst :
  (forall c b p', ~ txLoop_turn (NewTCPPeer c) b p') /\
  (forall p msgs b p1,
      reachable p ->
      txLoop_turn (execState (sends msgs) p) b p1 ->
      forall b' p2, ~ txLoop_turn p1 b' p2).
Proof.
  split.
  - intros c b p' Hturn.
    destruct (reachable_turn _ _ _ (reach_new c) Hturn) as (_ & Hc & _).
    discriminate Hc.
  - intros p msgs b p1 Hp Hturn b' p2 Hturn2.
    assert (Hq : reachable (execState (sends msgs) p)).
    { clear Hturn. revert p Hp. induction msgs as [|m rest IH]; intros p Hp.
      - exact Hp.
      - rewrite sends_cons. apply IH, reach_Send, Hp. }
    destruct (reachable_turn _ _ _ Hq Hturn) as (-> & _ & Hp1).
    assert (Hq1 : reachable p1) by exact (reach_turn _ _ _ Hq Hturn).
    destruct (reachable_turn _ _ _ Hq1 Hturn2) as (_ & Hc & _).
    rewrite Hp1 in Hc. discriminate Hc.
Qed.

Lemma txLoop_one_turn_per_burst_witness :
  let p := execState (sends [Some []; None; Some []]) (NewTCPPeer sample_conn) in
  ~ exists b' p2, txLoop_turn (set_chPending (buffered 1 0) p) b' p2.
Proof.
  cbv zeta. intros (b' & p2 & Hturn). revert Hturn.
  apply (proj2 txLoop_one_turn_per_burst (NewTCPPeer sample_conn)
           [Some []; None; Some []] true).
  - apply reach_new.
  - apply turn_pending. reflexivity.
Defined.

(** X5: every turn of [txLoop] is paid for by a [Send]. In a history that
    starts at a fresh peer, the turns taken plus the notification still
    buffered at the end never outnumber the [Send] calls. *)
Theorem turns_bounded_by_sends (c : ptr net.Conn) (tr : list event) (p : TCPPeer) :
  exec (NewTCPPeer c) tr p ->
  turns tr + buffered_count (chPending p) <= List.length (sent tr).
Proof.
  intros Hex. pose proof (exec_turns_le _ _ _ Hex (reach_new c)) as Hle.
  cbn in Hle. lia.
Qed.

Lemma turns_bounded_by_sends_witness :
  turns [ev_Send (Some []); ev_Send None; ev_turn] + 0
  <= List.length (sent [ev_Send (Some []); ev_Send None; ev_turn]).
Proof.
  apply (turns_bounded_by_sends sample_conn
           [ev_Send (Some []); ev_Send None; ev_turn]
           (set_chPending (buffered 1 0)
              (execState (sends [Some []; None]) (NewTCPPeer sample_conn)))).
  apply exec_Send, exec_Send. eapply exec_turn.
  - apply turn_pending. reflexivity.
  - apply exec_nil.
Defined.

(** X6: a notification stands for queued data. In a history that starts at
    a fresh peer, whenever a notification is buffered at the end, or a turn
    was taken, the pending queue is not empty. *)
Theorem notification_means_pending (c : ptr net.Conn) (tr : list event) (p : TCPPeer) :
  exec (NewTCPPeer c) tr p ->
  0 < turns tr + buffered_count (chPending p) ->
  elems (pending p) <> [].
Proof.
  intros Hex Hpos.
  pose proof (exec_turns_le _ _ _ Hex (reach_new c)) as Hle.
  rewrite (exec_pending _ _ _ Hex). cbn in Hle |- *.
  destruct (sent tr); [cbn in Hle; lia | discriminate].
Qed.

Lemma notification_means_pending_witness :
  elems (pending (execState (Send None) (NewTCPPeer sample_conn))) <> [].
Proof.
  apply (notification_means_pending sample_conn [ev_Send None]).
  - apply exec_Send, exec_nil.
  - cbn. lia.
Defined.

(** The connection of a peer is set once. *)
Lemma exec_conn (p p' : TCPPeer) (tr : list event) :
  exec p tr p' -> conn p' = conn p.
Proof.
  induction 1 as [p | p out tr p' _ IH | p p1 tr p' Hturn _ IH].
  - reflexivity.
  - rewrite IH. unfold execState. rewrite Send_run. cbn -[notifyPending].
    now rewrite (proj1 (notifyPending_frame _)).
  - rewrite IH. apply (txLoop_turn_frame p p1 true Hturn).
Qed.

(** X7: [RemoteAddr] is a stable identity. At the end of any history that
    starts at [NewTCPPeer conn], [RemoteAddr] gives the remote address of
    [conn] and leaves the peer as it is; with a nil [conn] the call panics,
    at any time. *)
Theorem RemoteAddr_stable (c : ptr net.Conn) (tr : list event) (p : TCPPeer) :
  exec (NewTCPPeer c) tr p ->
  runState RemoteAddr p = (option_map net.RemoteAddr c, p) /\
  (c = None -> evalState RemoteAddr p = None) /\
  (forall nc, c = Some nc -> evalState RemoteAddr p = Some (net.RemoteAddr nc)).
Proof.
  intros Hex. pose proof (exec_conn _ _ _ Hex) as Hc. cbn in Hc.
  assert (Hr : runState RemoteAddr p = (option_map net.RemoteAddr c, p)).
  { unfold RemoteAddr. cbn. now rewrite Hc. }
  split; [exact Hr|]. unfold evalState. rewrite Hr.
  clear Hc Hr Hex. split; [intros -> | intros nc ->]; reflexivity.
Qed.

Lemma RemoteAddr_stable_witness :
  evalState RemoteAddr
    (execState (Send None) (execState (Send (Some [])) (NewTCPPeer sample_conn)))
  = Some (net.mkAddr "tcp"%string "10.0.0.2:4680"%string).
Proof.
  refine (proj2 (proj2 (RemoteAddr_stable sample_conn
            [ev_Send (Some []); ev_Send None] _ _)) _ eq_refl).
  apply exec_Send, exec_Send, exec_nil.
Defined.

End peer_histories.


(** * What a verdict of VerifyConfig tells *)

Section VerifyConfig_verdicts.
Import consensus config_spec.

Lemma first_invalid_Some (c : Config) (f : Field) :
  first_invalid c = Some f ->
  invalid f c = true /\ forall g, rank g < rank f -> invalid g c = false.
Proof.
  unfold first_invalid, check_order, find.
  destruct (invalid FEpoch c) eqn:H0;
    [|destruct (invalid FCurrentState c) eqn:H1;
      [|destruct (invalid FStateCompare c) eqn:H2;
        [|destruct (invalid FStateValidate c) eqn:H3;
          [|destruct (invalid FPrivateKey c) eqn:H4;
            [|destruct (invalid FParticipants c) eqn:H5]]]]];
    intros [= <-]; (split; [assumption|]);
    intros g Hg; destruct g; cbn [rank] in Hg; try lia; assumption.
Qed.

Lemma first_invalid_None (c : Config) :
  first_invalid c = None -> forall f, invalid f c = false.
Proof.
  unfold first_invalid, check_order, find.
  destruct (invalid FEpoch c) eqn:H0; [discriminate|].
  destruct (invalid FCurrentState c) eqn:H1; [discriminate|].
  destruct (invalid FStateCompare c) eqn:H2; [discriminate|].
  destruct (invalid FStateValidate c) eqn:H3; [discriminate|].
  destruct (invalid FPrivateKey c) eqn:H4; [discriminate|].
  destruct (invalid FParticipants c) eqn:H5; [discriminate|].
  intros _ f. destruct f; assumption.
Qed.

Lemma is_nil_false_inv {A} (o : option A) : is_nil o = false -> o <> None.
Proof. destruct o; [discriminate | intros [=]]. Qed.

(** X8: [VerifyConfig] accepts exactly the configurations that pass its
    six checks: the result is nil if and only if the epoch is set, the
    state, the comparator, the validator and the private key are present
    and there are at least four participants. *)
Theorem VerifyConfig_nil_iff (c : Config) :
  evalState VerifyConfig c = None <->
  time.IsZero (Epoch c) = false /\
  CurrentState c <> None /\
  StateCompare c <> None /\
  StateValidate c <> None /\
  PrivateKey c <> None /\
  ConfigMinimumParticipants <= len (Participants c).
Proof.
  rewrite VerifyConfig_eval. split.
  - intros Hn.
    assert (Hf : first_invalid c = None)
      by (destruct (first_invalid c); [discriminate Hn | reflexivity]).
    pose proof (first_invalid_None c Hf) as Hall.
    pose proof (Hall FEpoch) as H0. pose proof (Hall FCurrentState) as H1.
    pose proof (Hall FStateCompare) as H2. pose proof (Hall FStateValidate) as H3.
    pose proof (Hall FPrivateKey) as H4. pose proof (Hall FParticipants) as H5.
    cbn [invalid] in *. apply Nat.ltb_ge in H5.
    repeat split; try (apply is_nil_false_inv; assumption); assumption.
  - intros (H0 & H1 & H2 & H3 & H4 & H5).
    unfold first_invalid, check_order, find. cbn [invalid].
    unfold ConfigMinimumParticipants in H5. apply Nat.ltb_ge in H5.
    now rewrite H0, !is_nil_false, H5 by assumption.
Qed.

Lemma VerifyConfig_nil_iff_witness :
  evalState VerifyConfig (sample_config 5) = None.
Proof.
  apply (proj2 (VerifyConfig_nil_iff (sample_config 5))).
  repeat split; cbn; try congruence. unfold ConfigMinimumParticipants. lia.
Defined.

(** X9: an error of [VerifyConfig] never blames a field that is in order.
    Whatever error is returned is the error of some field, that field is
    missing or invalid, and every field checked before it is in order. *)
Theorem VerifyConfig_error_sound (c : Config) (e : Err) :
  evalState VerifyConfig c = Some e ->
  exists f : Field,
    e = field_error f /\
    invalid f c = true /\
    forall g, rank g < rank f -> invalid g c = false.
Proof.
  rewrite VerifyConfig_eval.
  destruct (first_invalid c) as [f|] eqn:Hf; [|discriminate].
  intros [= <-]. exists f. split; [reflexivity|].
  apply first_invalid_Some, Hf.
Qed.

Lemma VerifyConfig_error_sound_witness :
  exists f : Field,
    ErrConfigLess = field_error f /\
    invalid f (set_StateCompare None (sample_config 0)) = true /\
    forall g, rank g < rank f ->
              invalid g (set_StateCompare None (sample_config 0)) = false.
Proof.
  apply (VerifyConfig_error_sound (set_StateCompare None (sample_config 0))).
  reflexivity.
Defined.

(** X10: [VerifyConfig] looks at nothing but the six tests. Two
    configurations that agree on whether the epoch is zero, on which of the
    state, the comparator, the validator and the private key are nil, and on
    whether there are fewer than four participants get the same result; so
    the height, the hasher, the key material, the functions and the
    participants themselves (nil or repeated entries included) play no
    part. *)
Theorem VerifyConfig_depends_only_on_tests :
  (forall c1 c2,
      time.IsZero (Epoch c1) = time.IsZero (Epoch c2) ->
      is_nil (CurrentState c1) = is_nil (CurrentState c2) ->
      is_nil (StateCompare c1) = is_nil (StateCompare c2) ->
      is_nil (StateValidate c1) = is_nil (StateValidate c2) ->
      is_nil (PrivateKey c1) = is_nil (PrivateKey c2) ->
      (len (Participants c1) <? 4) = (len (Participants c2) <? 4) ->
      evalState VerifyConfig c1 = evalState VerifyConfig c2) /\
  (forall c ps,
      len ps = len (Participants c) ->
      evalState VerifyConfig (set_Participants ps c) = evalState VerifyConfig c) /\
  (forall c h hash,
      evalState VerifyConfig (set_CurrentHeight h (set_StateHash hash c))
      = evalState VerifyConfig c).
Proof.
  split; [|split].
  - intros c1 c2 H0 H1 H2 H3 H4 H5.
    rewrite !VerifyConfig_eval. unfold first_invalid, check_order, find.
    cbn [invalid]. now rewrite H0, H1, H2, H3, H4, H5.
  - intros c ps Hlen. rewrite !VerifyConfig_eval.
    unfold first_invalid, check_order, find. cbn [invalid]. cbn.
    now rewrite Hlen.
  - intros c h hash. rewrite !VerifyConfig_eval. reflexivity.
Qed.

Lemma VerifyConfig_depends_only_on_tests_witness :
  evalState VerifyConfig
    (set_Participants (Some [None; None; None; None]) (sample_config 4))
  = evalState VerifyConfig (sample_config 4).
Proof.
  apply (proj1 (proj2 VerifyConfig_depends_only_on_tests)). reflexivity.
Defined.

End VerifyConfig_verdicts.


(** * The run command: the configuration built from a quorum file *)

Section run_command.
Import consensus config_spec.

Variable now : time.Time.
Variable ParseECPrivateKey : bytes -> option ecdsa.PrivateKey.
Variable bytes_Compare : bytes -> bytes -> Z.

Local Abbreviation range_Keys := (main.range_Keys ParseECPrivateKey).
Local Abbreviation run_config := (main.run_config now ParseECPrivateKey bytes_Compare).

(** The participants appended for a list of parsed keys. *)
Local Abbreviation publics privs :=
  (map (fun priv => Some (ecdsa.Public priv)) privs).

(** Either every key of the file parses or one of them does not. *)
Lemma parse_all (keys : list bytes) :
  (exists privs, map ParseECPrivateKey keys = map Some privs) \/
  (exists key, In key keys /\ ParseECPrivateKey key = None).
Proof.
  induction keys as [|key rest [[privs IH] | (bad & Hin & Hbad)]].
  - left. now exists [].
  - destruct (ParseECPrivateKey key) as [priv|] eqn:Hp.
    + left. exists (priv :: privs). cbn. now rewrite Hp, IH.
    + right. exists key. split; [now left | exact Hp].
  - right. exists bad. split; [now right | exact Hbad].
Qed.

(** The loop over keys that all parse: every public key is appended in file
    order, and the private key is the one at index [id], if the loop comes
    by that index. *)
Lemma range_Keys_ok (privs : list ecdsa.PrivateKey) :
  forall (keys : list bytes) (id k : Z) (c : Config),
    map ParseECPrivateKey keys = map Some privs ->
    runState (range_Keys id k keys) c =
      (true,
       mkConfig (Epoch c) (CurrentHeight c) (CurrentState c)
         (if ((k <=? id) && (id <? k + Z.of_nat (List.length privs)))%Z
          then nth_error privs (Z.to_nat (id - k))
          else PrivateKey c)
         (match privs with
          | [] => Participants c
          | _ => Some (elems (Participants c) ++ publics privs)
          end)
         (StateCompare c) (StateValidate c) (StateHash c)).
Proof.
  induction privs as [|priv privs' IH]; intros keys id k c Hmap.
  - destruct keys; [|discriminate Hmap]. destruct c. cbn -[Z.add].
    destruct (Z.leb_spec k id), (Z.ltb_spec id (k + 0)); cbn;
      try reflexivity; exfalso; lia.
  - destruct keys as [|key rest]; [discriminate Hmap|].
    cbn [map] in Hmap. injection Hmap as Hkey Hrest.
    cbn [main.range_Keys]. rewrite Hkey.
    destruct (Z.eqb_spec id k) as [->|Hne]; cbn -[main.range_Keys Z.of_nat];
      rewrite (IH rest _ _ _ Hrest); clear IH; cbn -[Z.of_nat];
      f_equal; f_equal.
    + destruct (Z.leb_spec (k + 1) k); [exfalso; lia|]. cbn [andb].
      destruct (Z.leb_spec k k); [|exfalso; lia].
      destruct (Z.ltb_spec k (k + Z.of_nat (S (List.length privs'))));
        [|exfalso; lia].
      cbn [andb]. rewrite Z.sub_diag. reflexivity.
    + destruct privs'; cbn; [reflexivity|]. now rewrite <- app_assoc.
    + destruct (Z.leb_spec (k + 1) id), (Z.leb_spec k id);
        try (exfalso; lia); cbn [andb]; [|reflexivity].
      destruct (Z.ltb_spec id (k + 1 + Z.of_nat (List.length privs'))),
               (Z.ltb_spec id (k + Z.of_nat (S (List.length privs'))));
        try (exfalso; lia); [|reflexivity].
      replace (Z.to_nat (id - k)) with (S (Z.to_nat (id - (k + 1)))) by lia.
      reflexivity.
    + destruct privs'; cbn; [reflexivity|]. now rewrite <- app_assoc.
Qed.

(** The loop stops with an error at the first key that does not parse. *)
Lemma range_Keys_fail (keys : list bytes) :
  (exists key, In key keys /\ ParseECPrivateKey key = None) ->
  forall (id k : Z) (c : Config), evalState (range_Keys id k keys) c = false.
Proof.
  unfold evalState.
  induction keys as [|key rest IH]; intros (bad & Hin & Hbad) id k c.
  - destruct Hin.
  - cbn [main.range_Keys].
    destruct (ParseECPrivateKey key) as [priv|] eqn:Hp; [|reflexivity].
    destruct Hin as [->|Hin]; [congruence|].
    cbn -[main.range_Keys].
    destruct (id =? k)%Z; cbn -[main.range_Keys]; apply IH; eauto.
Qed.

(** The configuration of a run that gets as far as [agent.NewAgent]. *)
Lemma run_config_ok (quorum : main.Quorum) (id : Z) (privs : list ecdsa.PrivateKey) :
  (id < Z.of_nat (len (main.Keys quorum)))%Z ->
  map ParseECPrivateKey (elems (main.Keys quorum)) = map Some privs ->
  run_config quorum id =
    Some (mkConfig now (main.Height quorum) (main.State quorum)
            (if (0 <=? id)%Z then nth_error privs (Z.to_nat id) else None)
            (match privs with
             | [] => None
             | _ => Some (publics privs)
             end)
            (Some bytes_Compare) (Some (fun _ => true)) None).
Proof.
  intros Hid Hmap. unfold main.run_config.
  destruct (Z.geb_spec id (Z.of_nat (len (main.Keys quorum)))); [exfalso; lia|].
  cbn -[main.range_Keys Z.of_nat].
  rewrite (range_Keys_ok privs (elems (main.Keys quorum)) id 0 _ Hmap).
  cbn -[Z.of_nat].
  assert (Hlen : List.length privs = len (main.Keys quorum)).
  { unfold len. rewrite <- (length_map Some privs), <- Hmap. apply length_map. }
  rewrite Z.sub_0_r, Hlen.
  destruct (Z.ltb_spec id (Z.of_nat (len (main.Keys quorum)))); [|exfalso; lia].
  rewrite andb_true_r. reflexivity.
Qed.

Lemma run_config_bad_id (quorum : main.Quorum) (id : Z) :
  (Z.of_nat (len (main.Keys quorum)) <= id)%Z ->
  run_config quorum id = None.
Proof.
  intros Hid. unfold main.run_config.
  destruct (Z.geb_spec id (Z.of_nat (len (main.Keys quorum))));
    [reflexivity | exfalso; lia].
Qed.

Lemma run_config_bad_key (quorum : main.Quorum) (id : Z) :
  (exists key, In key (elems (main.Keys quorum)) /\ ParseECPrivateKey key = None) ->
  run_config quorum id = None.
Proof.
  intros Hbad. unfold main.run_config.
  destruct (id >=? _)%Z; [reflexivity|].
  cbn -[main.range_Keys].
  match goal with
  | |- context [runState (range_Keys ?i ?k ?ks) ?c] =>
      pose proof (range_Keys_fail ks Hbad i k c) as Hf;
      unfold evalState in Hf;
      destruct (runState (range_Keys i k ks) c) as [v s]
  end.
  cbn in Hf. subst v. reflexivity.
Qed.

(** X11: the configuration the [run] command hands to [agent.NewAgent].
    When the command gets that far, every key of the quorum file has
    parsed, and the configuration holds the clock reading, the state and
    height of the file, the public keys of all keys in file order as
    participants, the key at index [id] as private key (none for a negative
    [id]), the byte comparison, a validator that accepts every state, and
    no hasher. *)
Theorem run_config_fields (quorum : main.Quorum) (id : Z) (config : Config) :
  run_config quorum id = Some config ->
  exists privs : list ecdsa.PrivateKey,
    map ParseECPrivateKey (elems (main.Keys quorum)) = map Some privs /\
    Epoch config = now /\
    CurrentHeight config = main.Height quorum /\
    CurrentState config = main.State quorum /\
    PrivateKey config
      = (if (0 <=? id)%Z then nth_error privs (Z.to_nat id) else None) /\
    elems (Participants config) = publics privs /\
    StateCompare config = Some bytes_Compare /\
    (exists validate, StateValidate config = Some validate /\
                      forall s, validate s = true) /\
    StateHash config = None.
Proof.
  intros Hrun.
  destruct (Z.lt_ge_cases id (Z.of_nat (len (main.Keys quorum)))) as [Hid|Hid];
    [|rewrite (run_config_bad_id quorum id Hid) in Hrun; discriminate Hrun].
  destruct (parse_all (elems (main.Keys quorum))) as [[privs Hmap]|Hbad];
    [|rewrite (run_config_bad_key quorum id Hbad) in Hrun; discriminate Hrun].
  rewrite (run_config_ok quorum id privs Hid Hmap) in Hrun.
  injection Hrun as <-. exists privs. cbn.
  repeat split; try assumption.
  - destruct privs; reflexivity.
  - now eexists.
Qed.


Lemma run_config_VerifyConfig (quorum : main.Quorum) (id : Z) (config : Config) :
  run_config quorum id = Some config ->
  evalState VerifyConfig config =
    if time.IsZero now then Some ErrConfigEpoch
    else if is_nil (main.State quorum) then Some ErrConfigStateNil
    else if (id <? 0)%Z then Some ErrConfigPrivateKey
    else if len (main.Keys quorum) <? ConfigMinimumParticipants
         then Some ErrConfigParticipants
         else None.
Proof.
  intros Hrun.
  destruct (Z.lt_ge_cases id (Z.of_nat (len (main.Keys quorum)))) as [Hid|Hid];
    [|rewrite (run_config_bad_id quorum id Hid) in Hrun; discriminate Hrun].
  destruct (parse_all (elems (main.Keys quorum))) as [[privs Hmap]|Hbad];
    [|rewrite (run_config_bad_key quorum id Hbad) in Hrun; discriminate Hrun].
  rewrite (run_config_ok quorum id privs Hid Hmap) in Hrun.
  injection Hrun as <-.
  assert (Hlen : List.length privs = len (main.Keys quorum)).
  { unfold len. rewrite <- (length_map Some privs), <- Hmap. apply length_map. }
  rewrite VerifyConfig_eval. unfold first_invalid, check_order, find.
  cbn [invalid Epoch CurrentState StateCompare StateValidate PrivateKey
       Participants is_nil].
  destruct (time.IsZero now); [reflexivity|].
  destruct (is_nil (main.State quorum)); [reflexivity|].
  destruct (Z.ltb_spec id 0) as [Hneg|Hpos].
  - destruct (Z.leb_spec 0 id); [exfalso; lia | reflexivity].
  - destruct (Z.leb_spec 0 id); [|exfalso; lia].
    destruct (nth_error privs (Z.to_nat id)) eqn:Hnth.
    + cbn [is_nil]. unfold ConfigMinimumParticipants. rewrite <- Hlen.
      match goal with
      | |- context [len ?ps <? 4] =>
          assert (Hps : len ps = List.length privs)
            by (destruct privs; unfold len; cbn; now rewrite ?length_map);
          rewrite Hps
      end.
      destruct (List.length privs <? 4); reflexivity.
    + apply nth_error_None in Hnth. exfalso. lia.
Qed.

(** X13: what [VerifyConfig] says of the configuration of the [run]
    command. It is rejected for a zero clock reading, then for a quorum file
    without state, then for a negative [id] (no private key), then for
    fewer than four keys in the file, and accepted otherwise. *)
Theorem run_config_verdict (quorum : main.Quorum) (id : Z) (config : Config) :
  run_config quorum id = Some config ->
  evalState VerifyConfig config =
    if time.IsZero now then Some ErrConfigEpoch
    else if is_nil (main.State quorum) then Some ErrConfigStateNil
    else if (id <? 0)%Z then Some ErrConfigPrivateKey
    else if len (main.Keys quorum) <? ConfigMinimumParticipants
         then Some ErrConfigParticipants
         else None.
Proof. apply run_config_VerifyConfig. Qed.

(** X14: the node is one of the participants. When the [run] command
    builds its configuration with a non-negative [id], the private key of
    the configuration is the parsed key number [id] of the quorum file and
    its public key is the participant at index [id]. *)
Theorem run_config_own_key (quorum : main.Quorum) (id : Z) (config : Config) :
  run_config quorum id = Some config ->
  (0 <= id)%Z ->
  exists (key : bytes) (priv : ecdsa.PrivateKey),
    nth_error (elems (main.Keys quorum)) (Z.to_nat id) = Some key /\
    ParseECPrivateKey key = Some priv /\
    PrivateKey config = Some priv /\
    nth_error (elems (Participants config)) (Z.to_nat id)
      = Some (Some (ecdsa.Public priv)).
Proof.
  intros Hrun Hpos.
  destruct (Z.lt_ge_cases id (Z.of_nat (len (main.Keys quorum)))) as [Hid|Hid];
    [|rewrite (run_config_bad_id quorum id Hid) in Hrun; discriminate Hrun].
  destruct (parse_all (elems (main.Keys quorum))) as [[privs Hmap]|Hbad];
    [|rewrite (run_config_bad_key quorum id Hbad) in Hrun; discriminate Hrun].
  rewrite (run_config_ok quorum id privs Hid Hmap) in Hrun.
  injection Hrun as <-.
  destruct (nth_error (elems (main.Keys quorum)) (Z.to_nat id)) as [key|] eqn:Hkey;
    [|apply nth_error_None in Hkey; unfold len in Hid; exfalso; lia].
  pose proof (map_nth_error ParseECPrivateKey _ _ Hkey) as Hp.
  rewrite Hmap in Hp.
  destruct (nth_error privs (Z.to_nat id)) as [priv|] eqn:Hpriv;
    [|rewrite nth_error_map, Hpriv in Hp; discriminate Hp].
  rewrite nth_error_map, Hpriv in Hp. cbn in Hp. injection Hp as Hp.
  exists key, priv. cbn.
  destruct (Z.leb_spec 0 id); [|exfalso; lia].
  repeat split; try assumption; try (symmetry; assumption).
  destruct privs as [|p0 ps]; [destruct (Z.to_nat id); discriminate Hpriv|].
  cbn [elems]. now rewrite nth_error_map, Hpriv.
Qed.

End run_command.


(** * The genkeys command: the quorum written for the participants *)

Section genkeys_command.

Variable GenerateKey : nat -> option ecdsa.PrivateKey.
Variable MarshalECPrivateKey : ecdsa.PrivateKey -> option bytes.
Variable rand_Read : option (nat -> Byte.byte).

Local Abbreviation generate_keys :=
  (main.generate_keys GenerateKey MarshalECPrivateKey).
Local Abbreviation genkeys_quorum :=
  (main.genkeys_quorum GenerateKey MarshalECPrivateKey rand_Read).

(** The [j]-th key is drawn and marshalled without error. *)
Local Abbreviation key_ok j :=
  (exists k b, GenerateKey j = Some k /\ MarshalECPrivateKey k = Some b).

(** Drawing or marshalling the [j]-th key fails. *)
Local Abbreviation key_fails j :=
  (GenerateKey j = None \/
   exists k, GenerateKey j = Some k /\ MarshalECPrivateKey k = None).

Lemma keys_ok_or_fail (n i : nat) :
  (forall j, j < n -> key_ok (i + j)) \/ (exists j, j < n /\ key_fails (i + j)).
Proof.
  induction n as [|n [IH|(j & Hj & Hf)]].
  - left. intros j Hj. lia.
  - destruct (GenerateKey (i + n)) as [k|] eqn:Hg.
    + destruct (MarshalECPrivateKey k) as [b|] eqn:Hm.
      * left. intros j Hj. destruct (Nat.eq_dec j n) as [->|Hne].
        -- now exists k, b.
        -- apply IH. lia.
      * right. exists n. split; [lia|]. right. now exists k.
    + right. exists n. split; [lia|]. now left.
  - right. exists j. split; [lia | exact Hf].
Qed.

(** The loop when every key is drawn and marshalled: the marshalled keys
    are appended in the order of the draws. *)
Lemma generate_keys_ok (n : nat) :
  forall (i : nat) (q : main.Quorum),
    (forall j, j < n -> key_ok (i + j)) ->
    exists bs : list bytes,
      List.length bs = n /\
      (forall j b, nth_error bs j = Some b ->
                   exists k, GenerateKey (i + j) = Some k /\
                             MarshalECPrivateKey k = Some b) /\
      runState (generate_keys i n) q =
        (true, main.set_Keys (match bs with
                              | [] => main.Keys q
                              | _ => Some (elems (main.Keys q) ++ bs)
                              end) q).
Proof.
  induction n as [|n IH]; intros i q Hok.
  - exists []. split; [reflexivity|]. split.
    + intros j b Hnth. destruct j; discriminate Hnth.
    + destruct q. reflexivity.
  - destruct (Hok 0 ltac:(lia)) as (k & b & Hg & Hm).
    rewrite Nat.add_0_r in Hg.
    destruct (IH (S i) (main.set_Keys (append (main.Keys q) b) q)) as (bs & Hlen & Hbs & Hrun).
    { intros j Hj. specialize (Hok (S j) ltac:(lia)).
      now rewrite Nat.add_succ_r in Hok. }
    exists (b :: bs). split; [cbn; lia|]. split.
    + intros [|j] b' Hnth.
      * injection Hnth as <-. exists k. now rewrite Nat.add_0_r.
      * rewrite Nat.add_succ_r. apply Hbs. exact Hnth.
    + cbn [main.generate_keys]. rewrite Hg, Hm.
      cbn -[main.generate_keys]. rewrite Hrun. f_equal.
      destruct bs; cbn; [reflexivity|]. now rewrite <- app_assoc.
Qed.

(** The loop stops with an error at the first key that cannot be drawn or
    marshalled. *)
Lemma generate_keys_fail (n : nat) :
  forall (i : nat) (q : main.Quorum),
    (exists j, j < n /\ key_fails (i + j)) ->
    evalState (generate_keys i n) q = false.
Proof.
  unfold evalState.
  induction n as [|n IH]; intros i q (j & Hj & Hf); [lia|].
  cbn [main.generate_keys].
  destruct (GenerateKey i) as [k|] eqn:Hg; [|reflexivity].
  destruct (MarshalECPrivateKey k) as [b|] eqn:Hm; [|reflexivity].
  cbn -[main.generate_keys]. apply IH.
  destruct j as [|j].
  - rewrite Nat.add_0_r in Hf. destruct Hf as [Hf|(k' & Hg' & Hm')]; congruence.
  - exists j. split; [lia|]. now rewrite Nat.add_succ_r in Hf.
Qed.

Lemma rand_Read_cases :
  (exists rnd, rand_Read = Some rnd) \/ rand_Read = None.
Proof. destruct rand_Read as [rnd|]; [left; now exists rnd | now right]. Qed.

Lemma genkeys_quorum_ok (count : Z) (rnd : nat -> Byte.byte) :
  (forall j, j < Z.to_nat count -> key_ok j) ->
  rand_Read = Some rnd ->
  exists bs : list bytes,
    List.length bs = Z.to_nat count /\
    (forall j b, nth_error bs j = Some b ->
                 exists k, GenerateKey j = Some k /\ MarshalECPrivateKey k = Some b) /\
    genkeys_quorum count =
      Some (main.mkQuorum (Some (map rnd (seq 0 main.initialData_len))) 0
              (match bs with [] => None | _ => Some bs end)).
Proof.
  intros Hok Hrnd.
  destruct (generate_keys_ok (Z.to_nat count) 0 main.new_Quorum Hok)
    as (bs & Hlen & Hbs & Hrun).
  exists bs. split; [exact Hlen|]. split; [exact Hbs|].
  unfold main.genkeys_quorum. cbn -[main.generate_keys main.initialData_len].
  rewrite Hrun, Hrnd. cbn -[main.initialData_len].
  destruct bs; reflexivity.
Qed.

Lemma genkeys_quorum_key_fails (count : Z) :
  (exists j, j < Z.to_nat count /\ key_fails j) ->
  genkeys_quorum count = None.
Proof.
  intros Hf. unfold main.genkeys_quorum.
  cbn -[main.generate_keys main.initialData_len].
  pose proof (generate_keys_fail (Z.to_nat count) 0 main.new_Quorum Hf) as He.
  unfold evalState in He.
  destruct (runState (generate_keys 0 (Z.to_nat count)) main.new_Quorum) as [v s].
  cbn in He. subst v. reflexivity.
Qed.

Lemma genkeys_quorum_read_fails (count : Z) :
  rand_Read = None -> genkeys_quorum count = None.
Proof.
  intros Hr. unfold main.genkeys_quorum.
  cbn -[main.generate_keys main.initialData_len].
  destruct (runState (generate_keys 0 (Z.to_nat count)) main.new_Quorum) as [[|] s];
    [rewrite Hr|]; reflexivity.
Qed.

Lemma genkeys_quorum_inv (count : Z) (quorum : main.Quorum) :
  genkeys_quorum count = Some quorum ->
  len (main.Keys quorum) = Z.to_nat count /\
  (forall j b, nth_error (elems (main.Keys quorum)) j = Some b ->
               exists k, GenerateKey j = Some k /\ MarshalECPrivateKey k = Some b) /\
  (exists data, main.State quorum = Some data /\ List.length data = 1024) /\
  main.Height quorum = 0%N.
Proof.
  intros Hgen.
  destruct (keys_ok_or_fail (Z.to_nat count) 0) as [Hok|Hf];
    [|rewrite (genkeys_quorum_key_fails count Hf) in Hgen; discriminate Hgen].
  destruct rand_Read_cases as [[rnd Hr]|Hr];
    [|rewrite (genkeys_quorum_read_fails count Hr) in Hgen; discriminate Hgen].
  destruct (genkeys_quorum_ok count rnd Hok Hr) as (bs & Hlen & Hbs & Hq).
  rewrite Hq in Hgen. injection Hgen as <-.
  cbn [main.Keys main.State main.Height].
  assert (He : elems (match bs with [] => None | _ => Some bs end) = bs)
    by (destruct bs; reflexivity).
  unfold len. rewrite He.
  split; [exact Hlen|]. split; [exact Hbs|]. split; [|reflexivity].
  exists (map rnd (seq 0 main.initialData_len)).
  split; [reflexivity|]. now rewrite length_map, length_seq.
Qed.

(** X15: the quorum that [genkeys] writes. When the command gets as far as
    the output file, the quorum holds one marshalled key per draw, in the
    order of the draws and as many as [count] asks for (none when [count] is
    zero or negative, which is no error), a non-nil state of 1024 bytes and
    height 0. *)
Theorem genkeys_quorum_shape (count : Z) (quorum : main.Quorum) :
  genkeys_quorum count = Some quorum ->
  len (main.Keys quorum) = Z.to_nat count /\
  (forall j b, nth_error (elems (main.Keys quorum)) j = Some b ->
               exists k, GenerateKey j = Some k /\ MarshalECPrivateKey k = Some b) /\
  (exists data, main.State quorum = Some data /\ List.length data = 1024) /\
  main.Height quorum = 0%N.
Proof. apply genkeys_quorum_inv. Qed.

(** X16: when [genkeys] gives up before it writes. No quorum is built
    exactly when one of the [count] keys cannot be drawn or marshalled, or
    the random state cannot be read. *)
Theorem genkeys_quorum_error_iff (count : Z) :
  genkeys_quorum count = None <->
  (exists j, j < Z.to_nat count /\ key_fails j) \/ rand_Read = None.
Proof.
  split.
  - intros Hgen.
    destruct (keys_ok_or_fail (Z.to_nat count) 0) as [Hok|Hf]; [|now left].
    destruct rand_Read_cases as [[rnd Hr]|Hr]; [|now right].
    destruct (genkeys_quorum_ok count rnd Hok Hr) as (bs & _ & _ & Hq).
    rewrite Hq in Hgen. discriminate Hgen.
  - intros [Hf|Hr];
      [apply genkeys_quorum_key_fails | apply genkeys_quorum_read_fails]; assumption.
Qed.

End genkeys_command.


(** * From genkeys to run *)

Section genkeys_then_run.
Import consensus config_spec.

Variable now : time.Time.
Variable ParseECPrivateKey : bytes -> option ecdsa.PrivateKey.
Variable bytes_Compare : bytes -> bytes -> Z.
Variable GenerateKey : nat -> option ecdsa.PrivateKey.
Variable MarshalECPrivateKey : ecdsa.PrivateKey -> option bytes.
Variable rand_Read : option (nat -> Byte.byte).

(** The parser of x509 reads back what its marshaller wrote for the keys
    that are drawn. *)
Hypothesis parse_marshal :
  forall j k b,
    GenerateKey j = Some k -> MarshalECPrivateKey k = Some b ->
    ParseECPrivateKey b = Some k.


End genkeys_then_run.

(** * The client on sample surroundings *)

Section client_witnesses.
Import consensus client_samples.

Local Abbreviation run_sample n id :=
  (main.run_config sample_now sample_Parse sample_Compare (sample_quorum n) id).
Local Abbreviation genkeys_sample count :=
  (main.genkeys_quorum sample_GenerateKey sample_Marshal sample_rand count).

Lemma run_config_fields_witness :
  match run_sample 4 2 with
  | Some config =>
      PrivateKey config = Some (key_number 2) /\
      len (Participants config) = 4 /\
      StateHash config = None
  | None => False
  end.
Proof.
  destruct (run_sample 4 2) as [config|] eqn:Hrun;
    [|vm_compute in Hrun; discriminate Hrun].
  destruct (run_config_fields _ _ _ _ _ _ Hrun)
    as (privs & Hmap & _ & _ & _ & Hk & Hp & _ & _ & Hh).
  cbn in Hmap.
  do 4 (destruct privs as [|? privs]; [discriminate Hmap|]).
  destruct privs; [|discriminate Hmap].
  injection Hmap as <- <- <- <-.
  unfold len. rewrite Hp. cbn in Hk. repeat split; assumption.
Defined.


Lemma run_config_verdict_witness :
  match run_sample 4 (-1), run_sample 3 0, run_sample 4 3 with
  | Some c1, Some c2, Some c3 =>
      evalState VerifyConfig c1 = Some ErrConfigPrivateKey /\
      evalState VerifyConfig c2 = Some ErrConfigParticipants /\
      evalState VerifyConfig c3 = None
  | _, _, _ => False
  end.
Proof.
  destruct (run_sample 4 (-1)) as [c1|] eqn:H1;
    [|vm_compute in H1; discriminate H1].
  destruct (run_sample 3 0) as [c2|] eqn:H2;
    [|vm_compute in H2; discriminate H2].
  destruct (run_sample 4 3) as [c3|] eqn:H3;
    [|vm_compute in H3; discriminate H3].
  split; [|split].
  - exact (run_config_verdict _ _ _ _ _ _ H1).
  - exact (run_config_verdict _ _ _ _ _ _ H2).
  - exact (run_config_verdict _ _ _ _ _ _ H3).
Defined.

Lemma run_config_own_key_witness :
  match run_sample 5 3 with
  | Some config =>
      exists key priv,
        nth_error (elems (main.Keys (sample_quorum 5))) 3 = Some key /\
        sample_Parse key = Some priv /\
        PrivateKey config = Some priv /\
        nth_error (elems (Participants config)) 3 = Some (Some (ecdsa.Public priv))
  | None => False
  end.
Proof.
  destruct (run_sample 5 3) as [config|] eqn:Hrun;
    [|vm_compute in Hrun; discriminate Hrun].
  apply (run_config_own_key _ _ _ _ _ _ Hrun). lia.
Defined.

Lemma genkeys_quorum_shape_witness :
  match genkeys_sample 5, genkeys_sample (-2) with
  | Some q5, Some q0 =>
      len (main.Keys q5) = 5 /\ main.Height q5 = 0%N /\ len (main.Keys q0) = 0
  | _, _ => False
  end.
Proof.
  destruct (genkeys_sample 5) as [q5|] eqn:H5;
    [|vm_compute in H5; discriminate H5].
  destruct (genkeys_sample (-2)) as [q0|] eqn:H0;
    [|vm_compute in H0; discriminate H0].
  destruct (genkeys_quorum_shape _ _ _ _ _ H5) as (Hl5 & _ & _ & Hh5).
  destruct (genkeys_quorum_shape _ _ _ _ _ H0) as (Hl0 & _).
  repeat split; assumption.
Defined.

Lemma genkeys_quorum_error_iff_witness :
  main.genkeys_quorum sample_GenerateKey (fun _ => None) sample_rand 1 = None /\
  main.genkeys_quorum sample_GenerateKey sample_Marshal None 0 = None.
Proof.
  split.
  - apply (proj2 (genkeys_quorum_error_iff _ _ _ _)). left.
    exists 0. split; [cbn; lia|]. right. now exists (key_number 0).
  - apply (proj2 (genkeys_quorum_error_iff _ _ _ _)). now right.
Defined.

Lemma sample_parse_marshal (j : nat) (k : ecdsa.PrivateKey) (b : bytes) :
  sample_GenerateKey j = Some k -> sample_Marshal k = Some b ->
  sample_Parse b = Some k.
Proof.
  intros [= <-] [= <-]. unfold sample_Parse, len. cbn.
  now rewrite repeat_length, Nat2Z.id.
Qed.


End client_witnesses.

(** * A peer that was not made by NewTCPPeer *)

Section zero_value_peer.
Import agent.

Lemma sends_chPending_nil (msgs : list bytes) :
  forall p, chPending p = nil_chan ->
            chPending (execState (sends msgs) p) = nil_chan.
Proof.
  induction msgs as [|m rest IH]; intros p Hc; [exact Hc|].
  rewrite sends_cons. apply IH.
  unfold execState. rewrite Send_run. unfold execState.
  rewrite notifyPending_run. cbn. rewrite Hc. cbn. exact Hc.
Qed.

Lemma sends_die (msgs : list bytes) :
  forall p, die (execState (sends msgs) p) = die p.
Proof.
  induction msgs as [|m rest IH]; intros p; [reflexivity|].
  rewrite sends_cons, IH. unfold execState. rewrite Send_run.
  cbn -[notifyPending].
  now rewrite (proj2 (proj2 (proj2 (notifyPending_frame _)))).
Qed.

(** X18: a zero-value [TCPPeer] takes messages and never signals them. On a
    peer that is [new(TCPPeer)] rather than the result of [NewTCPPeer],
    every [Send] still returns nil and queues its message, but the
    notification channel is nil, so no notification is ever buffered and
    [txLoop] has no turn to take, however many messages are pending. *)
Theorem zero_value_peer_never_notifies (msgs : list bytes) :
  elems (pending (execState (sends msgs) new_TCPPeer)) = msgs /\
  (forall out, evalState (Send out) (execState (sends msgs) new_TCPPeer) = None) /\
  chPending (execState (sends msgs) new_TCPPeer) = nil_chan /\
  (forall b p', ~ txLoop_turn (execState (sends msgs) new_TCPPeer) b p').
Proof.
  pose proof (sends_chPending_nil msgs new_TCPPeer eq_refl) as Hc.
  pose proof (sends_die msgs new_TCPPeer) as Hd.
  split; [now rewrite sends_elems|]. split; [|split; [exact Hc|]].
  - intros out. unfold evalState. now rewrite Send_run.
  - intros b p' [ch' Hr | d' Hr].
    + rewrite Hc in Hr. discriminate Hr.
    + rewrite Hd in Hr. discriminate Hr.
Qed.

End zero_value_peer.
